(** * Smoothing voter: a shallow embedding of
      custom_components/smoothing_voter/sensor.py

    Readings are Python floats; they are modelled as rationals [Q], with the
    comparisons of the source ([<], [<=], [abs], [-]) read exactly.  The
    estimator [smoothing_voter] is a pure function; the sensor group's
    [async_update_group_state] is modelled as a state transformer on the
    fields it writes. *)

From Stdlib Require Import String QArith Qabs List Sorted Permutation Lia Lqa.
Import ListNotations.

Open Scope Q_scope.

(** ** Results of the estimator *)

(** The calculation type string: ["median"], ["smoothed"] or ["none"]. *)
Inductive calc_type := Median | Smoothed | CNone.

(** The only exception the estimator raises is [ValueError]. *)
Inductive exn := ValueError.

(** Either the returned pair [(new_val, calc_type)], or a raised exception. *)
Inductive outcome :=
| Returned (v : option Q) (c : calc_type)
| Raised (e : exn).

(** Python's [a < b] on floats. *)
Definition Qltb (a b : Q) : bool := negb (Qle_bool b a).

(** ** [sorted(inputs)]

    Python's [sorted] is stable and compares with [<] only; a stable
    insertion sort gives the same list: an element is placed before the
    first element that is not smaller than it. *)
Fixpoint insert (x : Q) (l : list Q) : list Q :=
  match l with
  | [] => [x]
  | h :: t => if Qltb h x then h :: insert x t else x :: h :: t
  end.

Fixpoint sort (l : list Q) : list Q :=
  match l with
  | [] => []
  | x :: t => insert x (sort t)
  end.

(** ** [max] and [min] of a non-empty list

    Python's [max] keeps the first maximal element (it replaces the current
    one only when a later item is strictly greater); [min] keeps the first
    minimal one. *)
Definition list_max (h : Q) (t : list Q) : Q :=
  fold_left (fun acc x => if Qltb acc x then x else acc) t h.

Definition list_min (h : Q) (t : list Q) : Q :=
  fold_left (fun acc x => if Qltb x acc then x else acc) t h.

(** [min(inputs, key=lambda x: abs(x - prev_output))]: the first input of
    least distance to [prev_output]. *)
Definition closest (p : Q) (h : Q) (t : list Q) : Q :=
  fold_left (fun acc x => if Qltb (Qabs (x - p)) (Qabs (acc - p)) then x else acc) t h.

(** ** The estimator *)

(** [m = (n + 1) // 2] *)
Definition window_len (n : nat) : nat := Nat.div (n + 1) 2.

(** [sorted_inputs[i : i + m]] *)
Definition window (s : list Q) (m i : nat) : list Q := firstn m (skipn i s).

(** [max(subset) - min(subset) <= voter_threshold]; [None] when [max] and
    [min] would raise on an empty subset. *)
Definition window_check (voter_threshold : Q) (subset : list Q) : option bool :=
  match subset with
  | [] => None
  | h :: t => Some (Qle_bool (list_max h t - list_min h t) voter_threshold)
  end.

(** [for i in range(n - m + 1): ...], run from offset [i] with [k] offsets
    left; [None] when the loop runs to its end without returning. *)
Fixpoint scan_windows (s : list Q) (m : nat) (voter_threshold : Q)
    (i k : nat) : option outcome :=
  match k with
  | O => None
  | S k' =>
      let subset := window s m i in
      match window_check voter_threshold subset with
      | None => Some (Raised ValueError)
      | Some true => Some (Returned (Some (nth (Nat.div m 2) subset 0)) Median)
      | Some false => scan_windows s m voter_threshold (S i) k'
      end
  end.

Definition smoothing_voter (inputs : list Q) (prev_output : option Q)
    (voter_threshold smoothing_threshold : Q) : outcome :=
  let n := length inputs in
  if Nat.ltb n 3 then Raised ValueError else
  let sorted_inputs := sort inputs in
  let m := window_len n in
  match scan_windows sorted_inputs m voter_threshold 0 (n - m + 1) with
  | Some r => r
  | None =>
      match prev_output with
      | None => Returned (Some (nth (Nat.div n 2) sorted_inputs 0)) Median
      | Some p =>
          match inputs with
          | [] => Raised ValueError
          | h :: t =>
              let closest_input := closest p h t in
              if Qle_bool (Qabs (closest_input - p)) smoothing_threshold
              then Returned (Some closest_input) Smoothed
              else Returned None CNone
          end
      end
  end.

(** Specification of the nearest-input search.  [first_min p l k]: index
    [k] holds an element of [l] at least distance to [p], and every earlier
    element is strictly farther. *)
Definition first_min (p : Q) (l : list Q) (k : nat) : Prop :=
  (k < length l)%nat /\
  (forall j, (j < length l)%nat -> Qabs (nth k l 0 - p) <= Qabs (nth j l 0 - p)) /\
  (forall j, (j < k)%nat -> Qabs (nth k l 0 - p) < Qabs (nth j l 0 - p)).

(** ** The sensor group

    The state an entity of [SmoothingVoterSensorGroup] keeps, restricted to
    the fields [async_update_group_state] reads or writes. *)
Record group_state := {
  voter_threshold : Q;
  smoothing_threshold : Q;
  prev_output : option Q;          (* _prev_output *)
  attr_native_value : option Q;    (* _attr_native_value *)
  calculation_type : calc_type;    (* _calculation_type *)
  attr_available : bool            (* _attr_available *)
}.

(** What one [entity_id] of the group yields in the gathering loop: no state
    ([hass.states.get] returns [None]), a state whose [float] conversion or
    unit conversion raises (skipped), or a numeric reading, already
    converted to the native unit. *)
Inductive entity_reading :=
| Missing
| Unparseable
| Reading (x : Q).

(** The gathering loop: [sensor_values] and [any_valid]. *)
Fixpoint gather (rs : list entity_reading) : list Q * bool :=
  match rs with
  | [] => ([], false)
  | Reading x :: rs' => let (vs, _) := gather rs' in (x :: vs, true)
  | _ :: rs' => gather rs'
  end.

Definition async_update_group_state (st : group_state)
    (rs : list entity_reading) : group_state :=
  let (sensor_values, any_valid) := gather rs in
  let available := any_valid && Nat.leb 3 (length sensor_values) in
  if negb available then
    {| voter_threshold := voter_threshold st;
       smoothing_threshold := smoothing_threshold st;
       prev_output := prev_output st;
       attr_native_value := None;
       calculation_type := CNone;
       attr_available := available |}
  else
    match smoothing_voter sensor_values (prev_output st)
            (voter_threshold st) (smoothing_threshold st) with
    | Returned new_val calc_type =>
        {| voter_threshold := voter_threshold st;
           smoothing_threshold := smoothing_threshold st;
           prev_output := match new_val with
                          | Some v => Some v
                          | None => prev_output st
                          end;
           attr_native_value := new_val;
           calculation_type := calc_type;
           attr_available := available |}
    | Raised ValueError =>
        {| voter_threshold := voter_threshold st;
           smoothing_threshold := smoothing_threshold st;
           prev_output := prev_output st;
           attr_native_value := None;
           calculation_type := CNone;
           attr_available := available |}
    end.

(** A run of update cycles: [async_update_group_state] applied to the
    readings of each cycle in turn. *)
Definition run_updates (st : group_state) (cycles : list (list entity_reading))
    : group_state :=
  fold_left async_update_group_state cycles st.

(** Whether an entity contributes a numeric reading to the gathering loop. *)
Definition is_reading (r : entity_reading) : bool :=
  match r with Reading _ => true | _ => false end.

(** ** [extra_state_attributes]

    Attribute dictionaries as association lists with unique keys;
    [{**d, k: v}] replaces the value of [k] in place when [k] is a key of
    [d] and appends [(k, v)] otherwise. *)
Inductive attr_value :=
| AStr (s : string)
| AOther (n : nat).   (* any other attribute value of the base class *)

Fixpoint dict_get (k : string) (d : list (string * attr_value)) : option attr_value :=
  match d with
  | [] => None
  | (k', v) :: d' => if String.eqb k k' then Some v else dict_get k d'
  end.

Definition dict_merge_key (d : list (string * attr_value)) (k : string)
    (v : attr_value) : list (string * attr_value) :=
  if existsb (fun kv => String.eqb k (fst kv)) d
  then map (fun kv => if String.eqb k (fst kv) then (k, v) else kv) d
  else d ++ [(k, v)].

Definition calc_type_str (c : calc_type) : string :=
  match c with
  | Median => "median"
  | Smoothed => "smoothed"
  | CNone => "none"
  end.

(** [{**super().extra_state_attributes, "calculation_type": ...}] *)
Definition extra_state_attributes (base : list (string * attr_value))
    (st : group_state) : list (string * attr_value) :=
  dict_merge_key base "calculation_type" (AStr (calc_type_str (calculation_type st))).

(** ** Configuration: const.py, config_flow.py and [async_setup_entry] *)

Definition DEFAULT_NAME : string := "Smoothing Voter".
Definition DEFAULT_VOTER_THRESHOLD : Q := 0.5.
Definition DEFAULT_SMOOTHING_THRESHOLD : Q := 2.0.

(** A dictionary with the keys [CONF_NAME], [CONF_ENTITIES],
    [CONF_VOTER_THRESHOLD] and [CONF_SMOOTHING_THRESHOLD], values of the
    types the form schema coerces to; [None] is an absent key.  Used for
    [user_input] and for an entry's options. *)
Record options_dict := {
  opt_name : option string;
  opt_entities : option (list string);
  opt_voter_threshold : option Q;
  opt_smoothing_threshold : option Q
}.

Definition empty_dict : options_dict :=
  {| opt_name := None; opt_entities := None;
     opt_voter_threshold := None; opt_smoothing_threshold := None |}.

(** The defaults of the form's [vol.Schema]; [None] for a required key
    without default. *)
Record form_schema := {
  default_name : string;
  default_entities : option (list string);
  default_voter_threshold : Q;
  default_smoothing_threshold : Q
}.

Inductive flow_exn := KeyError | Invalid.

Inductive flow_result :=
| CreateEntry (title : string) (data options : options_dict)
| ShowForm (step_id : string) (schema : form_schema) (errors : list (string * string))
| FlowRaised (e : flow_exn).

Section ConfigFlow.

(** [async_validate_entity_ids(registry, ...)] of Home Assistant: the
    resolved entity ids, or [None] when it raises [vol.Invalid]. *)
Variable validate_entity_ids : list string -> option (list string).

(** What both flow steps compute once at least three entities are selected:
    [async_validate_entity_ids] first, then [user_input[CONF_NAME]] and the
    threshold keys (a [KeyError] when one is absent); on success the name
    and the dictionary the step stores. *)
Definition flow_entry (user_input : options_dict) (es : list string)
    : flow_result + (string * options_dict) :=
  match validate_entity_ids es with
  | None => inl (FlowRaised Invalid)
  | Some entities =>
      match opt_name user_input, opt_voter_threshold user_input,
            opt_smoothing_threshold user_input with
      | Some nm, Some vt, Some st =>
          inr (nm, {| opt_name := Some nm; opt_entities := Some entities;
                      opt_voter_threshold := Some vt;
                      opt_smoothing_threshold := Some st |})
      | _, _, _ => inl (FlowRaised KeyError)
      end
  end.

Definition user_schema : form_schema :=
  {| default_name := DEFAULT_NAME; default_entities := None;
     default_voter_threshold := DEFAULT_VOTER_THRESHOLD;
     default_smoothing_threshold := DEFAULT_SMOOTHING_THRESHOLD |}.

(** [SmoothingVoterConfigFlow.async_step_user] *)
Definition async_step_user (user_input : option options_dict) : flow_result :=
  match user_input with
  | None => ShowForm "user" user_schema []
  | Some ui =>
      match opt_entities ui with
      | None => FlowRaised KeyError
      | Some es =>
          if Nat.leb 3 (length es) then
            match flow_entry ui es with
            | inl r => r
            | inr (title, options) => CreateEntry title empty_dict options
            end
          else ShowForm "user" user_schema [("base"%string, "not_enough_entities"%string)]
      end
  end.

(** [SmoothingVoterConfigFlow.async_step_import] *)
Definition async_step_import (user_input : option options_dict) : flow_result :=
  async_step_user user_input.

(** The options form, pre-filled from the entry's current options. *)
Definition options_schema (options : options_dict) : form_schema :=
  {| default_name := match opt_name options with Some n => n | None => DEFAULT_NAME end;
     default_entities := Some (match opt_entities options with Some l => l | None => [] end);
     default_voter_threshold :=
       match opt_voter_threshold options with Some v => v | None => DEFAULT_VOTER_THRESHOLD end;
     default_smoothing_threshold :=
       match opt_smoothing_threshold options with
       | Some v => v | None => DEFAULT_SMOOTHING_THRESHOLD end |}.

(** [SmoothingVoterOptionsFlow.async_step_init], for an entry with options
    [options]. *)
Definition async_step_init (options : options_dict) (user_input : option options_dict)
    : flow_result :=
  match user_input with
  | None => ShowForm "init" (options_schema options) []
  | Some ui =>
      match opt_entities ui with
      | None => FlowRaised KeyError
      | Some es =>
          if Nat.leb 3 (length es) then
            match flow_entry ui es with
            | inl r => r
            | inr (_, data) => CreateEntry "" data empty_dict
            end
          else ShowForm "init" (options_schema options) [("base"%string, "not_enough_entities"%string)]
      end
  end.

End ConfigFlow.

(** A [SmoothingVoterSensorGroup] entity: the constructor arguments it keeps
    and its update state. *)
Record sensor_entity := {
  ent_name : option string;
  ent_unique_id : string;
  ent_entity_ids : list string;
  ent_state : group_state
}.

(** [SmoothingVoterSensorGroup.__init__]; [base_available] is the
    availability the [SensorGroup] base class starts with. *)
Definition new_sensor_group (unique_id : string) (name : option string)
    (entity_ids : list string) (vt st : Q) (base_available : bool) : sensor_entity :=
  {| ent_name := name; ent_unique_id := unique_id; ent_entity_ids := entity_ids;
     ent_state := {| voter_threshold := vt; smoothing_threshold := st;
                     prev_output := None; attr_native_value := None;
                     calculation_type := CNone; attr_available := base_available |} |}.

(** [async_setup_entry]: the entity built from the entry's options. *)
Definition async_setup_entry (entry_id : string) (options : options_dict)
    (base_available : bool) : sensor_entity :=
  new_sensor_group entry_id (opt_name options)
    (match opt_entities options with Some l => l | None => [] end)
    (match opt_voter_threshold options with Some v => v | None => 0.1 end)
    (match opt_smoothing_threshold options with Some v => v | None => 1.0 end)
    base_available.

(** One update of an entity, reading each of its [entity_ids] from the
    current Home Assistant states [hass]. *)
Definition entity_update (e : sensor_entity) (hass : string -> entity_reading)
    : sensor_entity :=
  {| ent_name := ent_name e; ent_unique_id := ent_unique_id e;
     ent_entity_ids := ent_entity_ids e;
     ent_state := async_update_group_state (ent_state e) (map hass (ent_entity_ids e)) |}.

(** A freshly initialised group state, used in the concrete runs below. *)
Definition example_state : group_state :=
  {| voter_threshold := 0.5; smoothing_threshold := 1.0;
     prev_output := None; attr_native_value := None;
     calculation_type := CNone; attr_available := false |}.

(** ** Concrete runs *)

Example scenario_A :
  smoothing_voter [10.0; 10.05; 10.1] None 0.5 1.0 = Returned (Some 10.05) Median.
Proof. vm_compute. reflexivity. Qed.

Example scenario_B :
  smoothing_voter [10.0; 10.05; 50.0] None 0.5 1.0 = Returned (Some 10.05) Median.
Proof. vm_compute. reflexivity. Qed.

Example scenario_D_strict :
  smoothing_voter [10.0; 10.05; 50.0] (Some 30.0) 0.01 1.0 = Returned None CNone.
Proof. vm_compute. reflexivity. Qed.

Example smoothed_run :
  smoothing_voter [10.0; 10.5; 50.0] (Some 10.02) 0.1 1.0 = Returned (Some 10.0) Smoothed.
Proof. vm_compute. reflexivity. Qed.

(** ** Comparison helpers *)

Lemma Qltb_spec (a b : Q) : Qltb a b = true <-> a < b.
Proof.
  unfold Qltb. rewrite Bool.negb_true_iff. split.
  - intros H. apply Qnot_le_lt. intros Hle.
    apply Qle_bool_iff in Hle. congruence.
  - intros H. destruct (Qle_bool b a) eqn:E; [|reflexivity].
    apply Qle_bool_iff in E. exfalso. apply (Qlt_not_le a b); assumption.
Qed.

Lemma Qltb_false (a b : Q) : Qltb a b = false <-> b <= a.
Proof.
  unfold Qltb. rewrite Bool.negb_false_iff. apply Qle_bool_iff.
Qed.

(** ** [sort] is a sorted permutation *)

Lemma insert_perm (x : Q) (l : list Q) : Permutation (insert x l) (x :: l).
Proof.
  induction l as [|h t IH]; simpl; [reflexivity|].
  destruct (Qltb h x); [|reflexivity].
  rewrite IH. apply perm_swap.
Qed.

Lemma sort_perm (l : list Q) : Permutation (sort l) l.
Proof.
  induction l as [|x t IH]; simpl; [reflexivity|].
  rewrite insert_perm. now apply perm_skip.
Qed.

Lemma length_sort (l : list Q) : length (sort l) = length l.
Proof. apply Permutation_length, sort_perm. Qed.

Lemma insert_hdrel (a x : Q) (l : list Q) :
  a <= x -> HdRel Qle a l -> HdRel Qle a (insert x l).
Proof.
  intros Hax Hl. destruct l as [|h t]; simpl.
  - now constructor.
  - destruct (Qltb h x); constructor; [now inversion Hl | assumption].
Qed.

Lemma insert_sorted (x : Q) (l : list Q) :
  Sorted Qle l -> Sorted Qle (insert x l).
Proof.
  induction 1 as [|h t Ht IH Hh]; simpl.
  - now repeat constructor.
  - destruct (Qltb h x) eqn:E.
    + apply Qltb_spec in E. constructor; [exact IH|].
      apply insert_hdrel; [now apply Qlt_le_weak | exact Hh].
    + apply Qltb_false in E. constructor; [now constructor|].
      now constructor.
Qed.

Lemma sort_sorted (l : list Q) : Sorted Qle (sort l).
Proof.
  induction l as [|x t IH]; simpl; [constructor|]. now apply insert_sorted.
Qed.

(** ** Sorted windows *)

Lemma sorted_skipn (i : nat) (l : list Q) : Sorted Qle l -> Sorted Qle (skipn i l).
Proof.
  revert l; induction i as [|i IH]; intros l Hl; [exact Hl|].
  destruct l as [|h t]; [constructor|]. simpl.
  apply IH. now apply Sorted_inv in Hl.
Qed.

Lemma sorted_firstn (m : nat) (l : list Q) : Sorted Qle l -> Sorted Qle (firstn m l).
Proof.
  revert l; induction m as [|m IH]; intros l Hl; [constructor|].
  destruct l as [|h t]; [constructor|]. simpl.
  apply Sorted_inv in Hl as [Ht Hh]. constructor; [now apply IH|].
  destruct t as [|x t']; destruct m; simpl; constructor.
  now inversion Hh.
Qed.

Lemma sorted_window (s : list Q) (m i : nat) :
  Sorted Qle s -> Sorted Qle (window s m i).
Proof. intros H. apply sorted_firstn, sorted_skipn, H. Qed.

Lemma Qle_trans_inst : Transitive Qle.
Proof. intros a b c. apply Qle_trans. Qed.

(** [min] of a sorted list is its head. *)
Lemma list_min_sorted (h : Q) (t : list Q) :
  Sorted Qle (h :: t) -> list_min h t = h.
Proof.
  intros Hs. apply (Sorted_StronglySorted Qle_trans_inst) in Hs.
  apply StronglySorted_inv in Hs as [_ Hf]. unfold list_min.
  induction t as [|x t IH]; [reflexivity|]. simpl.
  inversion Hf as [|? ? Hx Hf']; subst.
  replace (Qltb x h) with false; [now apply IH|].
  symmetry. now apply Qltb_false.
Qed.

Lemma list_max_compat (l : list Q) (a b : Q) :
  a == b ->
  fold_left (fun acc x => if Qltb acc x then x else acc) l a ==
  fold_left (fun acc x => if Qltb acc x then x else acc) l b.
Proof.
  revert a b; induction l as [|x l IH]; intros a b Hab; simpl; [exact Hab|].
  assert (E : Qltb a x = Qltb b x).
  { unfold Qltb. now rewrite Hab. }
  rewrite E. destruct (Qltb b x); apply IH; [reflexivity | exact Hab].
Qed.

(** [max] of a sorted list equals (as a number) its last element. *)
Lemma list_max_sorted (h : Q) (t : list Q) :
  Sorted Qle (h :: t) -> list_max h t == nth (length t) (h :: t) 0.
Proof.
  unfold list_max. revert h; induction t as [|x t IH]; intros h Hs; simpl;
    [reflexivity|].
  apply Sorted_inv in Hs as [Hs Hh]. inversion Hh as [|? ? Hhx]; subst.
  destruct (Qltb h x) eqn:E.
  - apply IH, Hs.
  - apply Qltb_false in E.
    assert (Heq : h == x) by (apply Qle_antisym; assumption).
    rewrite (list_max_compat t h x Heq). apply (IH x Hs).
Qed.

(** ** The window test on the sorted input *)

Lemma window_nth (s : list Q) (m i j : nat) :
  (j < m)%nat -> nth j (window s m i) 0 = nth (i + j) s 0.
Proof.
  intros Hj. unfold window. rewrite nth_firstn.
  replace (Nat.ltb j m) with true by (symmetry; now apply PeanoNat.Nat.ltb_lt).
  apply nth_skipn.
Qed.

Lemma length_window (s : list Q) (m i : nat) :
  (i + m <= length s)%nat -> length (window s m i) = m.
Proof.
  intros H. unfold window. rewrite firstn_length_le; [reflexivity|].
  rewrite length_skipn. lia.
Qed.

(** On a sorted list, the window at offset [i] passes the test exactly when
    [s[i+m-1] - s[i] <= voter_threshold]. *)
Lemma window_check_sorted (vt : Q) (s : list Q) (m i : nat) :
  Sorted Qle s -> (1 <= m)%nat -> (i + m <= length s)%nat ->
  window_check vt (window s m i) =
  Some (Qle_bool (nth (i + m - 1) s 0 - nth i s 0) vt).
Proof.
  intros Hs Hm Hi.
  pose proof (sorted_window s m i Hs) as Hw.
  pose proof (length_window s m i Hi) as Hl.
  pose proof (window_nth s m i 0 ltac:(lia)) as H0.
  pose proof (window_nth s m i (m - 1) ltac:(lia)) as H1.
  destruct (window s m i) as [|h t] eqn:E; [simpl in Hl; lia|].
  simpl. f_equal.
  rewrite (list_min_sorted h t Hw).
  simpl in H0. rewrite PeanoNat.Nat.add_0_r in H0. rewrite <- H0.
  replace (i + m - 1)%nat with (i + (m - 1))%nat by lia. rewrite <- H1.
  simpl in Hl. replace (m - 1)%nat with (length t) by lia.
  apply Qleb_comp; [|reflexivity].
  rewrite (list_max_sorted h t Hw). reflexivity.
Qed.

(** ** The window loop *)

(** Whatever the loop does, it stops on a window that passes the test (at
    some offset [j] it visits), raises, or runs to its end. *)
Lemma scan_windows_cases (s : list Q) (m : nat) (vt : Q) (k i : nat) :
  scan_windows s m vt i k = None \/
  scan_windows s m vt i k = Some (Raised ValueError) \/
  exists j, (i <= j < i + k)%nat /\
    window_check vt (window s m j) = Some true /\
    scan_windows s m vt i k =
      Some (Returned (Some (nth (Nat.div m 2) (window s m j) 0)) Median).
Proof.
  revert i; induction k as [|k IH]; intros i; simpl; [now left|].
  destruct (window_check vt (window s m i)) as [[|]|] eqn:E.
  - right; right. exists i. split; [lia|]. now split.
  - destruct (IH (S i)) as [H|[H|[j [Hj H]]]]; [now left | now right; left|].
    right; right. exists j. split; [lia | exact H].
  - now right; left.
Qed.

(** When every visited window is full, the loop never raises. *)
Lemma scan_windows_no_raise (s : list Q) (m : nat) (vt : Q) (k i : nat) :
  (1 <= m)%nat -> (i + k - 1 + m <= length s)%nat ->
  scan_windows s m vt i k <> Some (Raised ValueError).
Proof.
  revert i; induction k as [|k IH]; intros i Hm Hk; simpl; [discriminate|].
  destruct (window_check vt (window s m i)) as [[|]|] eqn:E.
  - discriminate.
  - apply IH; [exact Hm | lia].
  - exfalso. pose proof (length_window s m i ltac:(lia)) as Hl.
    destruct (window s m i); [simpl in Hl; lia | discriminate].
Qed.

(** The first passing window decides the result. *)
Lemma scan_windows_first (s : list Q) (m : nat) (vt : Q) (k i j : nat) :
  (i <= j < i + k)%nat ->
  window_check vt (window s m j) = Some true ->
  (forall l, (i <= l < j)%nat -> window_check vt (window s m l) = Some false) ->
  scan_windows s m vt i k =
    Some (Returned (Some (nth (Nat.div m 2) (window s m j) 0)) Median).
Proof.
  revert i; induction k as [|k IH]; intros i Hj Hok Hbefore; [lia|]. simpl.
  destruct (PeanoNat.Nat.eq_dec i j) as [->|Hne].
  - now rewrite Hok.
  - rewrite (Hbefore i ltac:(lia)). apply IH; [lia | exact Hok |].
    intros l Hl. apply Hbefore. lia.
Qed.

(** When no visited window passes, the loop runs to its end. *)
Lemma scan_windows_none (s : list Q) (m : nat) (vt : Q) (k i : nat) :
  (forall l, (i <= l < i + k)%nat -> window_check vt (window s m l) = Some false) ->
  scan_windows s m vt i k = None.
Proof.
  revert i; induction k as [|k IH]; intros i Hall; simpl; [reflexivity|].
  rewrite (Hall i ltac:(lia)). apply IH. intros l Hl. apply Hall. lia.
Qed.

Lemma window_len_bounds (n : nat) :
  (3 <= n)%nat -> (2 <= window_len n)%nat /\ (window_len n <= n)%nat.
Proof.
  intros H. unfold window_len. split.
  - change 2%nat with (Nat.div 4 2) at 1. apply PeanoNat.Nat.Div0.div_le_mono. lia.
  - apply PeanoNat.Nat.Div0.div_le_upper_bound. lia.
Qed.

(** ** The nearest input to [prev_output] *)

Lemma first_min_unique (p : Q) (l : list Q) (k1 k2 : nat) :
  first_min p l k1 -> first_min p l k2 -> k1 = k2.
Proof.
  intros [H1 [M1 F1]] [H2 [M2 F2]].
  destruct (PeanoNat.Nat.lt_total k1 k2) as [Hlt|[Heq|Hlt]]; [|exact Heq|].
  - exfalso. specialize (F2 k1 Hlt). specialize (M1 k2 H2).
    apply (Qlt_not_le _ _ F2 M1).
  - exfalso. specialize (F1 k2 Hlt). specialize (M2 k1 H1).
    apply (Qlt_not_le _ _ F1 M2).
Qed.

Lemma closest_fold_first_min (p : Q) (t : list Q) :
  forall (P : list Q) (k : nat), first_min p P k ->
  exists k', first_min p (P ++ t) k' /\
    fold_left (fun acc x => if Qltb (Qabs (x - p)) (Qabs (acc - p)) then x else acc)
      t (nth k P 0) = nth k' (P ++ t) 0.
Proof.
  induction t as [|x t IH]; intros P k Hk.
  - exists k. rewrite app_nil_r. now split.
  - destruct Hk as [Hkl [Hmin Hfirst]]. cbn [fold_left].
    replace (P ++ x :: t) with ((P ++ [x]) ++ t) by now rewrite <- app_assoc.
    destruct (Qltb (Qabs (x - p)) (Qabs (nth k P 0 - p))) eqn:E.
    + apply Qltb_spec in E.
      assert (Hx : nth (length P) (P ++ [x]) 0 = x).
      { rewrite app_nth2, PeanoNat.Nat.sub_diag by lia. reflexivity. }
      enough (Hfm : first_min p (P ++ [x]) (length P)).
      { pose proof (IH _ _ Hfm) as HI. rewrite Hx in HI. exact HI. }
      unfold first_min. rewrite Hx, length_app. cbn [length]. split; [lia|split].
      * intros j Hj. destruct (PeanoNat.Nat.lt_ge_cases j (length P)) as [Hjl|Hjl].
        -- rewrite app_nth1 by exact Hjl. apply Qlt_le_weak.
           apply (Qlt_le_trans _ _ _ E). now apply Hmin.
        -- replace j with (length P) by lia. rewrite Hx. apply Qle_refl.
      * intros j Hj. rewrite app_nth1 by exact Hj.
        apply (Qlt_le_trans _ _ _ E). now apply Hmin.
    + apply Qltb_false in E.
      replace (nth k P 0) with (nth k (P ++ [x]) 0) by now rewrite app_nth1.
      apply IH. unfold first_min. rewrite app_nth1 by exact Hkl. rewrite length_app. cbn [length].
      split; [lia|split].
      * intros j Hj. destruct (PeanoNat.Nat.lt_ge_cases j (length P)) as [Hjl|Hjl].
        -- rewrite app_nth1 by exact Hjl. now apply Hmin.
        -- replace j with (length P) by lia.
           rewrite app_nth2, PeanoNat.Nat.sub_diag by lia. exact E.
      * intros j Hj. rewrite app_nth1 by lia. now apply Hfirst.
Qed.

(** [closest] returns the element at the first index of least distance. *)
Lemma closest_first_min (p h : Q) (t : list Q) :
  exists k, first_min p (h :: t) k /\ closest p h t = nth k (h :: t) 0.
Proof.
  apply (closest_fold_first_min p t [h] 0). split; [simpl; lia|split].
  - intros j Hj. simpl in Hj. replace j with 0%nat by lia. apply Qle_refl.
  - intros j Hj. lia.
Qed.

(** ** The estimator on at least three inputs *)

Section Estimator.

Variable inputs : list Q.
Variables (voter_thr smoothing_thr : Q).

Local Abbreviation n := (length inputs).
Local Abbreviation s := (sort inputs).
Local Abbreviation m := (window_len (length inputs)).

Hypothesis Hn : (3 <= n)%nat.

Lemma m_bounds : (2 <= m)%nat /\ (m <= n)%nat.
Proof. now apply window_len_bounds. Qed.

Lemma window_check_input (j : nat) :
  (j <= n - m)%nat ->
  window_check voter_thr (window s m j) =
  Some (Qle_bool (nth (j + m - 1) s 0 - nth j s 0) voter_thr).
Proof.
  intros Hj. pose proof m_bounds. apply window_check_sorted.
  - apply sort_sorted.
  - lia.
  - rewrite length_sort. lia.
Qed.

Lemma window_median_input (j : nat) :
  nth (Nat.div m 2) (window s m j) 0 = nth (j + Nat.div m 2) s 0.
Proof.
  pose proof m_bounds. apply window_nth.
  apply PeanoNat.Nat.div_lt; lia.
Qed.

Lemma smoothing_voter_unfold (prev : option Q) :
  smoothing_voter inputs prev voter_thr smoothing_thr =
  match scan_windows s m voter_thr 0 (n - m + 1) with
  | Some r => r
  | None =>
      match prev with
      | None => Returned (Some (nth (Nat.div n 2) s 0)) Median
      | Some p =>
          match inputs with
          | [] => Raised ValueError
          | h :: t =>
              if Qle_bool (Qabs (closest p h t - p)) smoothing_thr
              then Returned (Some (closest p h t)) Smoothed
              else Returned None CNone
          end
      end
  end.
Proof.
  unfold smoothing_voter.
  replace (Nat.ltb n 3) with false by (symmetry; apply PeanoNat.Nat.ltb_ge; lia).
  reflexivity.
Qed.

(** No passing window: the loop runs to its end. *)
Lemma scan_input_none :
  (forall j, (j <= n - m)%nat -> ~ (nth (j + m - 1) s 0 - nth j s 0 <= voter_thr)) ->
  scan_windows s m voter_thr 0 (n - m + 1) = None.
Proof.
  intros Hno. pose proof m_bounds. apply scan_windows_none.
  intros l Hl. rewrite window_check_input by lia. f_equal.
  destruct (Qle_bool _ _) eqn:E; [|reflexivity].
  exfalso. apply (Hno l ltac:(lia)). now apply Qle_bool_iff.
Qed.

End Estimator.

(** The estimator never raises on three or more inputs. *)
Lemma smoothing_voter_total (inputs : list Q) (prev : option Q) (vt st : Q) :
  (3 <= length inputs)%nat ->
  exists v c, smoothing_voter inputs prev vt st = Returned v c.
Proof.
  intros Hn. rewrite (smoothing_voter_unfold inputs vt st Hn).
  pose proof (window_len_bounds _ Hn) as Hm.
  set (m := window_len (length inputs)) in *.
  destruct (scan_windows_cases (sort inputs) m vt (length inputs - m + 1) 0)
    as [H|[H|[j [Hj [Hok H]]]]]; rewrite H.
  - destruct prev as [p|]; [|eauto].
    destruct inputs as [|h t]; [simpl in Hn; lia|].
    destruct (Qle_bool _ _); eauto.
  - exfalso. apply (scan_windows_no_raise (sort inputs) m vt (length inputs - m + 1) 0); [lia| |exact H].
    rewrite length_sort. lia.
  - eauto.
Qed.

(** A [none] classification from the estimator comes with no value. *)
Lemma smoothing_voter_none_null (inputs : list Q) (prev : option Q) (vt st : Q)
    (v : option Q) :
  smoothing_voter inputs prev vt st = Returned v CNone -> v = None.
Proof.
  unfold smoothing_voter. destruct (Nat.ltb (length inputs) 3); [discriminate|].
  cbv zeta.
  destruct (scan_windows_cases (sort inputs) (window_len (length inputs)) vt
              (length inputs - window_len (length inputs) + 1) 0)
    as [H|[H|[j [_ [_ H]]]]]; rewrite H; try discriminate.
  destruct prev as [p|]; [|discriminate].
  destruct inputs as [|h t]; [discriminate|].
  destruct (Qle_bool _ _); congruence.
Qed.

Lemma gather_any_valid (rs : list entity_reading) :
  fst (gather rs) <> [] -> snd (gather rs) = true.
Proof.
  induction rs as [|r rs IH]; simpl; [congruence|].
  destruct r as [| |x]; try exact IH.
  destruct (gather rs). reflexivity.
Qed.

(** ** Claims *)

(** C1: whenever [smoothing_voter] returns a value (classification
    [median] or [smoothed]), that value is one of the inputs; the estimator
    never returns an averaged or interpolated value. *)
Theorem smoothing_voter_value_is_input (inputs : list Q) (prev : option Q)
    (vt st v : Q) (c : calc_type) :
  smoothing_voter inputs prev vt st = Returned (Some v) c -> In v inputs.
Proof.
  intros Hres. destruct (PeanoNat.Nat.lt_ge_cases (length inputs) 3) as [Hlt|Hn].
  { unfold smoothing_voter in Hres.
    replace (Nat.ltb (length inputs) 3) with true in Hres
      by (symmetry; now apply PeanoNat.Nat.ltb_lt).
    discriminate. }
  rewrite (smoothing_voter_unfold inputs vt st Hn) in Hres.
  pose proof (window_len_bounds _ Hn) as Hm.
  assert (Hs : forall i, (i < length inputs)%nat -> In (nth i (sort inputs) 0) inputs).
  { intros i Hi. apply (Permutation_in _ (sort_perm inputs)).
    apply nth_In. now rewrite length_sort. }
  destruct (scan_windows_cases (sort inputs) (window_len (length inputs)) vt
              (length inputs - window_len (length inputs) + 1) 0)
    as [H|[H|[j [Hj [_ H]]]]]; rewrite H in Hres.
  - destruct prev as [p|].
    + destruct inputs as [|h t] eqn:Ei; [discriminate|].
      destruct (closest_first_min p h t) as [k [[Hk _] Hc]].
      destruct (Qle_bool _ _); [|discriminate].
      injection Hres as Hv _. rewrite <- Hv, Hc. now apply nth_In.
    + injection Hres as Hv _. rewrite <- Hv. apply Hs.
      apply (PeanoNat.Nat.div_lt (length inputs) 2); lia.
  - discriminate.
  - injection Hres as Hv _. rewrite <- Hv, (window_median_input inputs Hn).
    apply Hs. assert (Nat.div (window_len (length inputs)) 2 < window_len (length inputs))%nat
      by (apply PeanoNat.Nat.div_lt; lia).
    lia.
Qed.

Lemma smoothing_voter_value_is_input_witness :
  smoothing_voter [10.0; 10.05; 50.0] None 0.5 1.0 = Returned (Some 10.05) Median /\
  In 10.05 [10.0; 10.05; 50.0].
Proof.
  split; [vm_compute; reflexivity|].
  apply (smoothing_voter_value_is_input [10.0; 10.05; 50.0] None 0.5 1.0 10.05 Median).
  vm_compute. reflexivity.
Defined.

(** C2: [smoothing_voter] raises [ValueError] (the [InsufficientInputs]
    error) exactly when it gets fewer than three inputs, whatever the
    thresholds and the previous output; on three or more inputs it returns
    a pair. *)
Theorem smoothing_voter_raises_iff (inputs : list Q) (prev : option Q) (vt st : Q) :
  (smoothing_voter inputs prev vt st = Raised ValueError <-> (length inputs < 3)%nat) /\
  ((3 <= length inputs)%nat -> exists v c, smoothing_voter inputs prev vt st = Returned v c).
Proof.
  split; [split|].
  - intros H. destruct (PeanoNat.Nat.lt_ge_cases (length inputs) 3) as [Hlt|Hn];
      [exact Hlt|].
    destruct (smoothing_voter_total inputs prev vt st Hn) as [v [c Hv]].
    congruence.
  - intros Hlt. unfold smoothing_voter.
    replace (Nat.ltb (length inputs) 3) with true
      by (symmetry; now apply PeanoNat.Nat.ltb_lt).
    reflexivity.
  - apply smoothing_voter_total.
Qed.

Lemma smoothing_voter_raises_iff_witness :
  smoothing_voter [1; 2] None 0.5 1.0 = Raised ValueError /\
  exists v c, smoothing_voter [1; 2; 3] None 0.5 1.0 = Returned v c.
Proof.
  split.
  - apply (proj1 (smoothing_voter_raises_iff [1; 2] None 0.5 1.0)). simpl. lia.
  - apply (proj2 (smoothing_voter_raises_iff [1; 2; 3] None 0.5 1.0)). simpl. lia.
Defined.

(** C3: with [sorted = sort inputs] and [m = window_len n], the windows
    [sorted[i : i + m]] are tried at offsets [i = 0 .. n - m] in increasing
    order; if the window at offset [i] has [sorted[i+m-1] - sorted[i] <=
    voter_threshold] and no earlier window has, the result is
    [(sorted[i + m // 2], median)], whatever later windows are. *)
Theorem smoothing_voter_first_window (inputs : list Q) (prev : option Q)
    (vt st : Q) (i : nat) :
  (3 <= length inputs)%nat ->
  (i <= length inputs - window_len (length inputs))%nat ->
  nth (i + window_len (length inputs) - 1) (sort inputs) 0 - nth i (sort inputs) 0 <= vt ->
  (forall j, (j < i)%nat ->
     ~ (nth (j + window_len (length inputs) - 1) (sort inputs) 0 - nth j (sort inputs) 0 <= vt)) ->
  smoothing_voter inputs prev vt st =
  Returned (Some (nth (i + Nat.div (window_len (length inputs)) 2) (sort inputs) 0)) Median.
Proof.
  intros Hn Hi Hok Hbefore.
  rewrite (smoothing_voter_unfold inputs vt st Hn).
  rewrite (scan_windows_first _ _ _ _ 0 i).
  - now rewrite (window_median_input inputs Hn).
  - lia.
  - rewrite (window_check_input inputs vt Hn i Hi). f_equal.
    now apply Qle_bool_iff.
  - intros l Hl. rewrite (window_check_input inputs vt Hn l ltac:(lia)). f_equal.
    destruct (Qle_bool _ _) eqn:E; [|reflexivity].
    exfalso. apply (Hbefore l ltac:(lia)). now apply Qle_bool_iff.
Qed.

(** Sorted input [[0; 10; 10.2; 10.3; 30]], [m = 3]: the window at offset 0
    spreads [10.2], the one at offset 1 spreads [0.3] and wins. *)
Lemma smoothing_voter_first_window_witness :
  smoothing_voter [30; 0; 10; 10.2; 10.3] None 0.5 1.0 = Returned (Some 10.2) Median.
Proof.
  refine (eq_trans (smoothing_voter_first_window
                      [30; 0; 10; 10.2; 10.3] None 0.5 1.0 1 _ _ _ _) _).
  - simpl. lia.
  - vm_compute. lia.
  - apply Qle_bool_iff. vm_compute. reflexivity.
  - intros j Hj. replace j with 0%nat by lia.
    intros Hle. apply Qle_bool_iff in Hle. vm_compute in Hle. discriminate.
  - vm_compute. reflexivity.
Defined.

(** C6: when no window passes and there is no previous output, the result
    is the lower median [(sorted[n // 2], median)] of the whole sorted input,
    classified [median]. *)
Theorem smoothing_voter_fallback_median (inputs : list Q) (vt st : Q) :
  (3 <= length inputs)%nat ->
  (forall j, (j <= length inputs - window_len (length inputs))%nat ->
     ~ (nth (j + window_len (length inputs) - 1) (sort inputs) 0 - nth j (sort inputs) 0 <= vt)) ->
  smoothing_voter inputs None vt st =
  Returned (Some (nth (Nat.div (length inputs) 2) (sort inputs) 0)) Median.
Proof.
  intros Hn Hno.
  rewrite (smoothing_voter_unfold inputs vt st Hn), (scan_input_none inputs vt Hn Hno).
  reflexivity.
Qed.

Lemma smoothing_voter_fallback_median_witness :
  smoothing_voter [50.0; 10.0; 10.05] None 0.01 1.0 = Returned (Some 10.05) Median.
Proof.
  refine (eq_trans (smoothing_voter_fallback_median
                      [50.0; 10.0; 10.05] 0.01 1.0 _ _) _).
  - simpl. lia.
  - intros j Hj. vm_compute in Hj. destruct j as [|[|j]]; [| |lia];
      intros Hle; apply Qle_bool_iff in Hle; vm_compute in Hle; discriminate.
  - vm_compute. reflexivity.
Defined.

(** C7: when no window passes and a previous output [p] is given, let [c] be
    the input at the first index of least distance [|c - p|] (in the input
    order); the result is [(c, smoothed)] if [|c - p| <= smoothing_threshold]
    and [(None, none)] otherwise. *)
Theorem smoothing_voter_smoothing (inputs : list Q) (vt st p : Q) (k : nat) :
  (3 <= length inputs)%nat ->
  (forall j, (j <= length inputs - window_len (length inputs))%nat ->
     ~ (nth (j + window_len (length inputs) - 1) (sort inputs) 0 - nth j (sort inputs) 0 <= vt)) ->
  first_min p inputs k ->
  (Qabs (nth k inputs 0 - p) <= st ->
     smoothing_voter inputs (Some p) vt st = Returned (Some (nth k inputs 0)) Smoothed) /\
  (st < Qabs (nth k inputs 0 - p) ->
     smoothing_voter inputs (Some p) vt st = Returned None CNone).
Proof.
  intros Hn Hno Hk.
  rewrite (smoothing_voter_unfold inputs vt st Hn), (scan_input_none inputs vt Hn Hno).
  destruct inputs as [|h t]; [simpl in Hn; lia|].
  destruct (closest_first_min p h t) as [k' [Hk' Hc]].
  rewrite (first_min_unique p (h :: t) k k' Hk Hk'), Hc.
  split.
  - intros Hle. apply Qle_bool_iff in Hle. now rewrite Hle.
  - intros Hlt. replace (Qle_bool _ _) with false; [reflexivity|].
    symmetry. apply Bool.not_true_iff_false. intros Hle.
    apply Qle_bool_iff in Hle. apply (Qlt_not_le _ _ Hlt Hle).
Qed.

Lemma smoothing_voter_smoothing_witness :
  smoothing_voter [10.0; 10.5; 50.0] (Some 10.02) 0.1 1.0 = Returned (Some 10.0) Smoothed.
Proof.
  refine (eq_trans (proj1 (smoothing_voter_smoothing
                             [10.0; 10.5; 50.0] 0.1 1.0 10.02 0 _ _ _) _) _).
  - simpl. lia.
  - intros j Hj. vm_compute in Hj. destruct j as [|[|j]]; [| |lia];
      intros Hle; apply Qle_bool_iff in Hle; vm_compute in Hle; discriminate.
  - split; [simpl; lia|split].
    + intros j Hj. simpl in Hj. apply Qle_bool_iff.
      destruct j as [|[|[|j]]]; [| | |lia]; vm_compute; reflexivity.
    + intros j Hj. lia.
  - apply Qle_bool_iff. vm_compute. reflexivity.
  - reflexivity.
Defined.

(** C9: raising the voter threshold never turns a passing window into a
    failing one: for fixed inputs and offset [i], if the window passes under
    [t1] and [t1 <= t2], it passes under [t2]. *)
Theorem window_check_monotone (inputs : list Q) (t1 t2 : Q) (i : nat) :
  t1 <= t2 ->
  window_check t1 (window (sort inputs) (window_len (length inputs)) i) = Some true ->
  window_check t2 (window (sort inputs) (window_len (length inputs)) i) = Some true.
Proof.
  intros Ht. destruct (window _ _ _) as [|h t]; simpl; [discriminate|].
  intros H. injection H as H. f_equal.
  apply Qle_bool_iff. apply Qle_bool_iff in H.
  now apply (Qle_trans _ t1).
Qed.

Lemma window_check_monotone_witness :
  window_check 0.5 (window (sort [10.0; 10.05; 50.0]) (window_len 3) 0) = Some true.
Proof.
  apply (window_check_monotone [10.0; 10.05; 50.0] 0.1 0.5 0).
  - apply Qle_bool_iff. vm_compute. reflexivity.
  - vm_compute. reflexivity.
Defined.

(** C4 (as stated): on inputs [[10.0; 10.05; 50.0]] with voter threshold
    [0.5], previous output [10.02] and smoothing threshold [1.0], the
    estimator does not return [(10.0, smoothed)]. *)
Lemma scenario_C_not_smoothed :
  smoothing_voter [10.0; 10.05; 50.0] (Some 10.02) 0.5 1.0 <>
  Returned (Some 10.0) Smoothed.
Proof. vm_compute. discriminate. Qed.

(** C4 (amended): on inputs [[10.0; 10.05; 50.0]] the window length is
    [m = 2], the first window [[10.0; 10.05]] passes the voter threshold
    [0.5], and the estimator returns [(10.05, median)]. *)
Theorem scenario_C_median :
  window_len 3 = 2%nat /\
  window_check 0.5 (window (sort [10.0; 10.05; 50.0]) (window_len 3) 0) = Some true /\
  smoothing_voter [10.0; 10.05; 50.0] (Some 10.02) 0.5 1.0 =
  Returned (Some 10.05) Median.
Proof. split; [|split]; vm_compute; reflexivity. Qed.

(** C5 (as stated): the window length is not [ceil((n + 1) / 2)] for every
    [n >= 3]: at [n = 4] it is [2], not [3]. *)
Lemma window_len_not_ceil :
  ~ (forall n, (3 <= n)%nat -> window_len n = Nat.div (n + 2) 2).
Proof.
  intros H. specialize (H 4%nat ltac:(lia)). vm_compute in H. discriminate.
Qed.

(** C5 (amended): the window length is [m = (n + 1) // 2 = ceil(n / 2)]:
    for odd [n = 2k + 1] it is [k + 1 = ceil((n + 1) / 2)], for even
    [n = 2k + 2] it is [k + 1 = n / 2]. *)
Theorem window_len_odd_even (k : nat) :
  window_len (2 * k + 1) = (k + 1)%nat /\
  window_len (2 * k + 1) = Nat.div (2 * k + 1 + 2) 2 /\
  window_len (2 * k + 2) = (k + 1)%nat /\
  window_len (2 * k + 2) = Nat.div (2 * k + 2) 2.
Proof.
  unfold window_len.
  replace (2 * k + 1 + 1)%nat with ((k + 1) * 2)%nat by lia.
  replace (2 * k + 1 + 2)%nat with (1 + (k + 1) * 2)%nat by lia.
  replace (2 * k + 2 + 1)%nat with (1 + (k + 1) * 2)%nat by lia.
  replace (2 * k + 2)%nat with ((k + 1) * 2)%nat by lia.
  rewrite PeanoNat.Nat.div_mul, PeanoNat.Nat.div_add by lia.
  simpl. repeat split; lia.
Qed.

(** C8: after [async_update_group_state] calls the estimator and it returns
    [(new_val, calc_type)], [_prev_output] becomes [new_val] when it is a
    value and is left unchanged when it is [None]; and whenever the update
    ends with calculation type [none], the native value is [None] and
    [_prev_output] is unchanged. *)
Theorem update_prev_output (st : group_state) (rs : list entity_reading) :
  (forall v c,
     (3 <= length (fst (gather rs)))%nat ->
     smoothing_voter (fst (gather rs)) (prev_output st)
       (voter_threshold st) (smoothing_threshold st) = Returned v c ->
     prev_output (async_update_group_state st rs) =
       match v with Some x => Some x | None => prev_output st end /\
     attr_native_value (async_update_group_state st rs) = v /\
     calculation_type (async_update_group_state st rs) = c) /\
  (calculation_type (async_update_group_state st rs) = CNone ->
     attr_native_value (async_update_group_state st rs) = None /\
     prev_output (async_update_group_state st rs) = prev_output st).
Proof.
  pose proof (gather_any_valid rs) as Hany.
  unfold async_update_group_state.
  destruct (gather rs) as [vals av]; cbv beta iota zeta delta [fst snd] in *. split.
  - intros v c Hn Hres.
    assert (Hav : av = true)
      by (apply Hany; destruct vals; [simpl in Hn; lia | discriminate]).
    replace (Nat.leb 3 (length vals)) with true
      by (symmetry; now apply PeanoNat.Nat.leb_le).
    rewrite Hav, Hres. simpl. now repeat split.
  - destruct (negb (av && Nat.leb 3 (length vals))); simpl; [now split|].
    destruct (smoothing_voter vals _ _ _) as [v c|[]] eqn:Hres; simpl;
      [|now split].
    intros ->. now rewrite (smoothing_voter_none_null _ _ _ _ _ Hres).
Qed.

Lemma update_prev_output_witness :
  prev_output
    (async_update_group_state
       {| voter_threshold := 0.5; smoothing_threshold := 1.0;
          prev_output := Some 30.0; attr_native_value := None;
          calculation_type := CNone; attr_available := false |}
       [Reading 10.0; Missing; Reading 10.05; Unparseable; Reading 50.0]) =
  Some 10.05.
Proof.
  refine (eq_trans (proj1 (proj1 (update_prev_output
    {| voter_threshold := 0.5; smoothing_threshold := 1.0;
       prev_output := Some 30.0; attr_native_value := None;
       calculation_type := CNone; attr_available := false |}
    [Reading 10.0; Missing; Reading 10.05; Unparseable; Reading 50.0])
    (Some 10.05) Median _ _)) _).
  - simpl. lia.
  - vm_compute. reflexivity.
  - reflexivity.
Defined.

(** C10: with fewer than three numeric readings, [async_update_group_state]
    does not call the estimator: it marks the entity unavailable, sets the
    native value to [None] and the calculation type to [none], and keeps
    [_prev_output]; with three or more, the call returns a pair that the
    entity takes over, so the [except ValueError] branch is never taken. *)
Theorem update_guard (st : group_state) (rs : list entity_reading) :
  ((length (fst (gather rs)) < 3)%nat ->
     async_update_group_state st rs =
     {| voter_threshold := voter_threshold st;
        smoothing_threshold := smoothing_threshold st;
        prev_output := prev_output st;
        attr_native_value := None;
        calculation_type := CNone;
        attr_available := false |}) /\
  ((3 <= length (fst (gather rs)))%nat ->
     attr_available (async_update_group_state st rs) = true /\
     exists v c,
       smoothing_voter (fst (gather rs)) (prev_output st)
         (voter_threshold st) (smoothing_threshold st) = Returned v c /\
       attr_native_value (async_update_group_state st rs) = v /\
       calculation_type (async_update_group_state st rs) = c).
Proof.
  pose proof (gather_any_valid rs) as Hany.
  unfold async_update_group_state.
  destruct (gather rs) as [vals av]; cbv beta iota zeta delta [fst snd] in *. split.
  - intros Hlt.
    replace (Nat.leb 3 (length vals)) with false
      by (symmetry; now apply PeanoNat.Nat.leb_gt).
    now rewrite Bool.andb_false_r.
  - intros Hn.
    assert (Hav : av = true)
      by (apply Hany; destruct vals; [simpl in Hn; lia | discriminate]).
    replace (Nat.leb 3 (length vals)) with true
      by (symmetry; now apply PeanoNat.Nat.leb_le).
    rewrite Hav. simpl.
    destruct (smoothing_voter_total vals (prev_output st)
                (voter_threshold st) (smoothing_threshold st) Hn) as [v [c Hres]].
    rewrite Hres. simpl. split; [reflexivity|]. now exists v, c.
Qed.

Lemma update_guard_witness :
  async_update_group_state
    {| voter_threshold := 0.5; smoothing_threshold := 1.0;
       prev_output := Some 30.0; attr_native_value := Some 30.0;
       calculation_type := Median; attr_available := true |}
    [Reading 10.0; Missing; Unparseable; Reading 50.0] =
  {| voter_threshold := 0.5; smoothing_threshold := 1.0;
     prev_output := Some 30.0; attr_native_value := None;
     calculation_type := CNone; attr_available := false |}.
Proof.
  refine (eq_trans (proj1 (update_guard
    {| voter_threshold := 0.5; smoothing_threshold := 1.0;
       prev_output := Some 30.0; attr_native_value := Some 30.0;
       calculation_type := Median; attr_available := true |}
    [Reading 10.0; Missing; Unparseable; Reading 50.0]) _) _).
  - simpl. lia.
  - reflexivity.
Defined.

(** ** Further properties of the estimator *)

Lemma sorted_nth_le (s : list Q) (j k : nat) :
  Sorted Qle s -> (j <= k)%nat -> (k < length s)%nat -> nth j s 0 <= nth k s 0.
Proof.
  intros Hs. apply (Sorted_StronglySorted Qle_trans_inst) in Hs.
  revert j k; induction Hs as [|h t Ht IH Hf]; intros j k Hjk Hk;
    simpl in Hk; [lia|].
  destruct j as [|j], k as [|k]; simpl; [apply Qle_refl| |lia|].
  - rewrite Forall_forall in Hf. apply Hf, nth_In. lia.
  - apply IH; lia.
Qed.

Lemma scan_windows_none_inv (s : list Q) (m : nat) (vt : Q) (k i : nat) :
  scan_windows s m vt i k = None ->
  forall l, (i <= l < i + k)%nat -> window_check vt (window s m l) = Some false.
Proof.
  revert i; induction k as [|k IH]; intros i H l Hl; [lia|]. simpl in H.
  destruct (window_check vt (window s m i)) as [[|]|] eqn:E; try discriminate.
  destruct (PeanoNat.Nat.eq_dec l i) as [->|Hne]; [exact E|].
  apply (IH (S i) H). lia.
Qed.

Lemma smoothing_voter_short (inputs : list Q) (prev : option Q) (vt st : Q) :
  (length inputs < 3)%nat -> smoothing_voter inputs prev vt st = Raised ValueError.
Proof.
  intros H. unfold smoothing_voter.
  replace (Nat.ltb (length inputs) 3) with true
    by (symmetry; now apply PeanoNat.Nat.ltb_lt).
  reflexivity.
Qed.

(** The three ways a result comes about on three or more inputs. *)
Lemma smoothing_voter_paths (inputs : list Q) (prev : option Q) (vt st : Q)
    (v : option Q) (c : calc_type) :
  (3 <= length inputs)%nat ->
  smoothing_voter inputs prev vt st = Returned v c ->
  (exists j, (j <= length inputs - window_len (length inputs))%nat /\
     nth (j + window_len (length inputs) - 1) (sort inputs) 0 - nth j (sort inputs) 0 <= vt /\
     v = Some (nth (j + Nat.div (window_len (length inputs)) 2) (sort inputs) 0) /\
     c = Median) \/
  ((forall j, (j <= length inputs - window_len (length inputs))%nat ->
     ~ (nth (j + window_len (length inputs) - 1) (sort inputs) 0 - nth j (sort inputs) 0 <= vt)) /\
   ((prev = None /\ v = Some (nth (Nat.div (length inputs) 2) (sort inputs) 0) /\ c = Median) \/
    (exists p k, prev = Some p /\ first_min p inputs k /\
       ((Qabs (nth k inputs 0 - p) <= st /\ v = Some (nth k inputs 0) /\ c = Smoothed) \/
        (st < Qabs (nth k inputs 0 - p) /\ v = None /\ c = CNone))))).
Proof.
  intros Hn Hres. rewrite (smoothing_voter_unfold inputs vt st Hn) in Hres.
  pose proof (window_len_bounds _ Hn) as Hm.
  destruct (scan_windows_cases (sort inputs) (window_len (length inputs)) vt
              (length inputs - window_len (length inputs) + 1) 0)
    as [H|[H|[j [Hj [Hok H]]]]]; rewrite H in Hres.
  - right. split.
    + intros j Hj Hle.
      pose proof (scan_windows_none_inv _ _ _ _ _ H j ltac:(lia)) as Hf.
      rewrite (window_check_input inputs vt Hn j Hj) in Hf.
      injection Hf as Hf. apply Qle_bool_iff in Hle. congruence.
    + destruct prev as [p|].
      * right. destruct inputs as [|h t] eqn:Ei; [discriminate|].
        destruct (closest_first_min p h t) as [k [Hk Hc]].
        exists p, k. split; [reflexivity|]. split; [exact Hk|]. rewrite <- Hc.
        destruct (Qle_bool _ _) eqn:E; injection Hres as <- <-.
        -- left. apply Qle_bool_iff in E. now split.
        -- right. split; [|now split]. apply Qnot_le_lt. intros Hle.
           apply Qle_bool_iff in Hle. congruence.
      * left. injection Hres as <- <-. now split.
  - discriminate.
  - left. injection Hres as <- <-. exists j.
    rewrite (window_check_input inputs vt Hn j ltac:(lia)) in Hok.
    injection Hok as Hok. apply Qle_bool_iff in Hok.
    split; [lia|]. split; [exact Hok|].
    split; [|reflexivity]. now rewrite (window_median_input inputs Hn).
Qed.

Lemma smoothed_helper (inputs : list Q) (prev : option Q) (vt st : Q) (v : option Q) :
  smoothing_voter inputs prev vt st = Returned v Smoothed ->
  exists p x, prev = Some p /\ v = Some x /\ In x inputs /\ Qabs (x - p) <= st.
Proof.
  intros Hres. destruct (PeanoNat.Nat.lt_ge_cases (length inputs) 3) as [Hlt|Hn].
  { rewrite (smoothing_voter_short _ _ _ _ Hlt) in Hres. discriminate. }
  destruct (smoothing_voter_paths _ _ _ _ _ _ Hn Hres)
    as [[j [_ [_ [_ Hc]]]] | [_ [[_ [_ Hc]] | [p [k [Hp [[Hk _] [[Hd [Hv _]]|[_ [_ Hc]]]]]]]]]];
    try discriminate.
  exists p, (nth k inputs 0). split; [exact Hp|]. split; [exact Hv|].
  split; [now apply nth_In | exact Hd].
Qed.

Lemma returned_value_in_inputs (inputs : list Q) (prev : option Q) (vt st x : Q)
    (c : calc_type) :
  smoothing_voter inputs prev vt st = Returned (Some x) c -> In x inputs.
Proof.
  intros Hres. destruct (PeanoNat.Nat.lt_ge_cases (length inputs) 3) as [Hlt|Hn].
  { rewrite (smoothing_voter_short _ _ _ _ Hlt) in Hres. discriminate. }
  pose proof (window_len_bounds _ Hn) as Hm.
  assert (Hs : forall i, (i < length inputs)%nat -> In (nth i (sort inputs) 0) inputs).
  { intros i Hi. apply (Permutation_in _ (sort_perm inputs)).
    apply nth_In. now rewrite length_sort. }
  destruct (smoothing_voter_paths _ _ _ _ _ _ Hn Hres)
    as [[j [Hj [_ [Hv _]]]] | [_ [[_ [Hv _]] | [p [k [_ [[Hk _] [[_ [Hv _]]|[_ [Hv _]]]]]]]]]].
  - replace x with (nth (j + Nat.div (window_len (length inputs)) 2) (sort inputs) 0)
      by congruence.
    apply Hs. assert (Nat.div (window_len (length inputs)) 2 < window_len (length inputs))%nat
      by (apply PeanoNat.Nat.div_lt; lia). lia.
  - replace x with (nth (Nat.div (length inputs) 2) (sort inputs) 0) by congruence.
    apply Hs. apply PeanoNat.Nat.div_lt; lia.
  - replace x with (nth k inputs 0) by congruence. now apply nth_In.
  - discriminate.
Qed.

Lemma sorted_spread_nonneg (inputs : list Q) (j : nat) :
  (3 <= length inputs)%nat ->
  (j <= length inputs - window_len (length inputs))%nat ->
  0 <= nth (j + window_len (length inputs) - 1) (sort inputs) 0 - nth j (sort inputs) 0.
Proof.
  intros Hn Hj. pose proof (window_len_bounds _ Hn) as Hm.
  assert (H : nth j (sort inputs) 0 <=
              nth (j + window_len (length inputs) - 1) (sort inputs) 0).
  { apply sorted_nth_le; [apply sort_sorted | lia | rewrite length_sort; lia]. }
  lra.
Qed.

Lemma repeat_of_constant (x : Q) (l : list Q) :
  (forall y, In y l -> y = x) -> l = repeat x (length l).
Proof.
  induction l as [|h t IH]; intros H; [reflexivity|]. simpl.
  rewrite (H h (or_introl eq_refl)), <- IH; [reflexivity|].
  intros y Hy. apply H. now right.
Qed.

Lemma sort_repeat (x : Q) (k : nat) : sort (repeat x k) = repeat x k.
Proof.
  induction k as [|k IH]; [reflexivity|]. simpl. rewrite IH.
  destruct k as [|k]; [reflexivity|]. simpl.
  replace (Qltb x x) with false; [reflexivity|].
  symmetry. apply Qltb_false, Qle_refl.
Qed.

(** X1: a [smoothed] result only comes with a previous output, and the
    returned value is within [smoothing_threshold] of it. *)
Theorem smoothing_voter_smoothed_close (inputs : list Q) (prev : option Q)
    (vt st : Q) (v : option Q) :
  smoothing_voter inputs prev vt st = Returned v Smoothed ->
  exists p x, prev = Some p /\ v = Some x /\ Qabs (x - p) <= st.
Proof.
  intros H. destruct (smoothed_helper _ _ _ _ _ H) as [p [x [Hp [Hv [_ Hd]]]]].
  now exists p, x.
Qed.

Lemma smoothing_voter_smoothed_close_witness :
  smoothing_voter [10.0; 10.5; 50.0] (Some 10.02) 0.1 1.0 = Returned (Some 10.0) Smoothed /\
  exists p x, Some 10.02 = Some p /\ Some 10.0 = Some x /\ Qabs (x - p) <= 1.0.
Proof.
  assert (H : smoothing_voter [10.0; 10.5; 50.0] (Some 10.02) 0.1 1.0 =
              Returned (Some 10.0) Smoothed) by (vm_compute; reflexivity).
  split; [exact H|].
  exact (smoothing_voter_smoothed_close _ _ _ _ _ H).
Defined.

Lemma no_prev_median_helper (inputs : list Q) (vt st : Q) :
  (3 <= length inputs)%nat ->
  exists x, smoothing_voter inputs None vt st = Returned (Some x) Median.
Proof.
  intros Hn. destruct (smoothing_voter_total inputs None vt st Hn) as [v [c H]].
  rewrite H.
  destruct (smoothing_voter_paths _ _ _ _ _ _ Hn H)
    as [[j [_ [_ [-> ->]]]] | [_ [[_ [-> ->]] | [p [k [Hp _]]]]]];
    [eauto | eauto | discriminate].
Qed.

(** X2: without a previous output, the estimator on three or more inputs
    always returns a value classified [median]; it never returns [smoothed]
    or [none]. *)
Theorem smoothing_voter_no_prev_median (inputs : list Q) (vt st : Q) :
  (3 <= length inputs)%nat ->
  exists x, smoothing_voter inputs None vt st = Returned (Some x) Median.
Proof. apply no_prev_median_helper. Qed.

Lemma smoothing_voter_no_prev_median_witness :
  exists x, smoothing_voter [50.0; 10.0; 10.05] None 0.01 1.0 = Returned (Some x) Median.
Proof. apply smoothing_voter_no_prev_median. simpl. lia. Defined.

(** X3: a negative voter threshold disables the window vote: no window
    passes, so without a previous output the result is the lower median of
    the whole input, and with one it is never classified [median]. *)
Theorem smoothing_voter_negative_voter_threshold (inputs : list Q) (vt st : Q) :
  vt < 0 -> (3 <= length inputs)%nat ->
  smoothing_voter inputs None vt st =
    Returned (Some (nth (Nat.div (length inputs) 2) (sort inputs) 0)) Median /\
  (forall p v c, smoothing_voter inputs (Some p) vt st = Returned v c -> c <> Median).
Proof.
  intros Hvt Hn.
  assert (Hno : forall j, (j <= length inputs - window_len (length inputs))%nat ->
    ~ (nth (j + window_len (length inputs) - 1) (sort inputs) 0 - nth j (sort inputs) 0 <= vt)).
  { intros j Hj Hle. pose proof (sorted_spread_nonneg inputs j Hn Hj). lra. }
  split.
  - rewrite (smoothing_voter_unfold inputs vt st Hn), (scan_input_none inputs vt Hn Hno).
    reflexivity.
  - intros p v c H.
    destruct (smoothing_voter_paths _ _ _ _ _ _ Hn H)
      as [[j [Hj [Hle _]]] | [_ [[Hp _] | [q [k [_ [_ [[_ [_ ->]]|[_ [_ ->]]]]]]]]]];
      try discriminate.
    exfalso. exact (Hno j Hj Hle).
Qed.

Lemma smoothing_voter_negative_voter_threshold_witness :
  smoothing_voter [10.0; 10.0; 10.0] None (-1) 1.0 = Returned (Some 10.0) Median.
Proof.
  refine (eq_trans (proj1 (smoothing_voter_negative_voter_threshold
                             [10.0; 10.0; 10.0] (-1) 1.0 _ _)) _).
  - unfold Qlt; simpl; lia.
  - simpl. lia.
  - vm_compute. reflexivity.
Defined.

(** X4: a negative smoothing threshold disables smoothing: the result is
    never classified [smoothed]. *)
Theorem smoothing_voter_negative_smoothing_threshold (inputs : list Q)
    (prev : option Q) (vt st : Q) (v : option Q) :
  st < 0 -> smoothing_voter inputs prev vt st <> Returned v Smoothed.
Proof.
  intros Hst H. destruct (smoothed_helper _ _ _ _ _ H) as [p [x [_ [_ [_ Hd]]]]].
  pose proof (Qabs_nonneg (x - p)). lra.
Qed.

Lemma smoothing_voter_negative_smoothing_threshold_witness :
  smoothing_voter [10.0; 10.5; 50.0] (Some 10.02) 0.1 (-1) <> Returned (Some 10.0) Smoothed.
Proof.
  apply smoothing_voter_negative_smoothing_threshold. unfold Qlt; simpl; lia.
Defined.

(** X5: a [median] result is either the lower median of a window of
    [m = (n + 1) // 2] sorted inputs that all lie within [voter_threshold]
    of it, or, only when there is no previous output, the lower median of
    the whole sorted input. *)
Theorem smoothing_voter_median_agreement (inputs : list Q) (prev : option Q)
    (vt st x : Q) :
  smoothing_voter inputs prev vt st = Returned (Some x) Median ->
  (exists j, (j <= length inputs - window_len (length inputs))%nat /\
     length (window (sort inputs) (window_len (length inputs)) j) = window_len (length inputs) /\
     In x (window (sort inputs) (window_len (length inputs)) j) /\
     (forall y, In y (window (sort inputs) (window_len (length inputs)) j) ->
        Qabs (y - x) <= vt)) \/
  (prev = None /\ x = nth (Nat.div (length inputs) 2) (sort inputs) 0).
Proof.
  intros H. destruct (PeanoNat.Nat.lt_ge_cases (length inputs) 3) as [Hlt|Hn].
  { rewrite (smoothing_voter_short _ _ _ _ Hlt) in H. discriminate. }
  pose proof (window_len_bounds _ Hn) as Hm.
  destruct (smoothing_voter_paths _ _ _ _ _ _ Hn H)
    as [[j [Hj [Hle [Hv _]]]] | [_ [[Hp [Hv _]] | [p [k [_ [_ [[_ [_ Hc]]|[_ [Hv _]]]]]]]]]];
    [left | right; split; congruence | discriminate | discriminate].
  set (s := sort inputs) in *. set (m := window_len (length inputs)) in *.
  assert (Hls : length s = length inputs) by apply length_sort.
  assert (Hx : x = nth (j + Nat.div m 2) s 0) by congruence. clear Hv.
  assert (Hm2 : (Nat.div m 2 < m)%nat) by (apply PeanoNat.Nat.div_lt; lia).
  assert (Hlw : length (window s m j) = m) by (apply length_window; lia).
  exists j. split; [exact Hj|]. split; [exact Hlw|]. split.
  - rewrite Hx, <- (window_nth s m j _ Hm2). apply nth_In. lia.
  - intros y Hy. apply (In_nth _ _ 0) in Hy as [a [Ha Hya]].
    rewrite Hlw in Ha. rewrite (window_nth s m j a Ha) in Hya.
    assert (Sorted Qle s) by apply sort_sorted.
    assert (nth j s 0 <= y) by (rewrite <- Hya; apply sorted_nth_le; auto; lia).
    assert (y <= nth (j + m - 1) s 0) by (rewrite <- Hya; apply sorted_nth_le; auto; lia).
    assert (nth j s 0 <= x) by (rewrite Hx; apply sorted_nth_le; auto; lia).
    assert (x <= nth (j + m - 1) s 0) by (rewrite Hx; apply sorted_nth_le; auto; lia).
    apply Qabs_Qle_condition. split; lra.
Qed.

Lemma smoothing_voter_median_agreement_witness :
  smoothing_voter [30; 0; 10; 10.2; 10.3] (Some 0) 0.5 1.0 = Returned (Some 10.2) Median /\
  ((exists j, (j <= 5 - window_len 5)%nat /\
     length (window (sort [30; 0; 10; 10.2; 10.3]) (window_len 5) j) = window_len 5 /\
     In 10.2 (window (sort [30; 0; 10; 10.2; 10.3]) (window_len 5) j) /\
     (forall y, In y (window (sort [30; 0; 10; 10.2; 10.3]) (window_len 5) j) ->
        Qabs (y - 10.2) <= 0.5)) \/
   (Some 0 = None /\ 10.2 = nth (Nat.div 5 2) (sort [30; 0; 10; 10.2; 10.3]) 0)).
Proof.
  assert (H : smoothing_voter [30; 0; 10; 10.2; 10.3] (Some 0) 0.5 1.0 =
              Returned (Some 10.2) Median) by (vm_compute; reflexivity).
  split; [exact H|].
  exact (smoothing_voter_median_agreement _ _ _ _ _ H).
Defined.

(** X6: when all inputs are the same reading [x] and the voter threshold is
    not negative, the result is [(x, median)], whatever the previous
    output. *)
Theorem smoothing_voter_unanimous (inputs : list Q) (prev : option Q) (vt st x : Q) :
  (3 <= length inputs)%nat -> (forall y, In y inputs -> y = x) -> 0 <= vt ->
  smoothing_voter inputs prev vt st = Returned (Some x) Median.
Proof.
  intros Hn Hall Hvt. pose proof (window_len_bounds _ Hn) as Hm.
  assert (Hs : sort inputs = repeat x (length inputs)).
  { rewrite (repeat_of_constant x inputs Hall) at 1.
    now rewrite sort_repeat. }
  rewrite (smoothing_voter_unfold inputs vt st Hn).
  rewrite (scan_windows_first _ _ _ _ 0 0).
  - rewrite (window_median_input inputs Hn), Hs. f_equal. f_equal.
    apply nth_repeat_lt.
    assert (Nat.div (window_len (length inputs)) 2 < window_len (length inputs))%nat
      by (apply PeanoNat.Nat.div_lt; lia). lia.
  - lia.
  - rewrite (window_check_input inputs vt Hn 0 ltac:(lia)), Hs. f_equal.
    apply Qle_bool_iff. rewrite !nth_repeat_lt by lia. lra.
  - intros l Hl. lia.
Qed.

Lemma smoothing_voter_unanimous_witness :
  smoothing_voter [7; 7; 7; 7] (Some 100) 0 0 = Returned (Some 7) Median.
Proof.
  apply smoothing_voter_unanimous.
  - simpl. lia.
  - intros y Hy. simpl in Hy. intuition.
  - apply Qle_refl.
Defined.

(** ** Further properties of the sensor group *)

Lemma gather_in (rs : list entity_reading) (x : Q) :
  In x (fst (gather rs)) -> In (Reading x) rs.
Proof.
  induction rs as [|r rs IH]; simpl; [tauto|].
  destruct r as [| |y]; try (intros H; right; now apply IH).
  destruct (gather rs) as [vs b] eqn:G. simpl in *.
  intros [->|H]; [now left | right; now apply IH].
Qed.

Lemma gather_filter (rs : list entity_reading) :
  gather (filter is_reading rs) = gather rs.
Proof.
  induction rs as [|r rs IH]; [reflexivity|].
  destruct r as [| |y]; simpl; [exact IH | exact IH | now rewrite IH].
Qed.


(** The new [_prev_output] of one update is the old one or a reading of the
    cycle. *)
Lemma update_prev_output_source (st : group_state) (rs : list entity_reading) (x : Q) :
  prev_output (async_update_group_state st rs) = Some x ->
  prev_output st = Some x \/ In (Reading x) rs.
Proof.
  pose proof (gather_in rs) as Hin.
  unfold async_update_group_state.
  destruct (gather rs) as [vals av]; cbv beta iota zeta delta [fst snd] in *.
  destruct (negb (av && Nat.leb 3 (length vals))); [now left|].
  destruct (smoothing_voter vals _ _ _) as [[v|] c|[]] eqn:Hres; cbn; try now left.
  intros Hv. injection Hv as ->. right.
  apply Hin. exact (returned_value_in_inputs _ _ _ _ _ _ Hres).
Qed.

Lemma update_prev_output_kept (st : group_state) (rs : list entity_reading) :
  prev_output st <> None -> prev_output (async_update_group_state st rs) <> None.
Proof.
  intros Hp. unfold async_update_group_state.
  destruct (gather rs) as [vals av].
  destruct (negb (av && Nat.leb 3 (length vals))); [exact Hp|].
  destruct (smoothing_voter vals _ _ _) as [[v|] c|[]]; cbn; congruence.
Qed.

(** X7: after an update, a non-null native value is the numeric reading of
    one of the group's entities in that cycle. *)
Theorem update_native_value_is_reading (st : group_state) (rs : list entity_reading)
    (x : Q) :
  attr_native_value (async_update_group_state st rs) = Some x -> In (Reading x) rs.
Proof.
  pose proof (gather_in rs) as Hin.
  unfold async_update_group_state.
  destruct (gather rs) as [vals av]; cbv beta iota zeta delta [fst snd] in *.
  destruct (negb (av && Nat.leb 3 (length vals))); [discriminate|].
  destruct (smoothing_voter vals _ _ _) as [[v|] c|[]] eqn:Hres; cbn;
    try discriminate.
  intros Hv. injection Hv as ->.
  apply Hin. exact (returned_value_in_inputs _ _ _ _ _ _ Hres).
Qed.

Lemma update_native_value_is_reading_witness :
  In (Reading 10.05) [Reading 10.0; Missing; Reading 10.05; Unparseable; Reading 50.0].
Proof.
  apply (update_native_value_is_reading example_state
           [Reading 10.0; Missing; Reading 10.05; Unparseable; Reading 50.0]).
  vm_compute. reflexivity.
Defined.

(** X8: over any run of updates, a stored previous output is either the
    initial one or a numeric reading of one of the cycles. *)
Theorem run_prev_output_source (cycles : list (list entity_reading))
    (st : group_state) (x : Q) :
  prev_output (run_updates st cycles) = Some x ->
  prev_output st = Some x \/ exists rs, In rs cycles /\ In (Reading x) rs.
Proof.
  unfold run_updates. revert st; induction cycles as [|rs cycles IH]; intros st H;
    simpl in *; [now left|].
  destruct (IH _ H) as [H1|[rs' [Hin Hr]]].
  - destruct (update_prev_output_source st rs x H1) as [H2|H2]; [now left|].
    right. exists rs. now split; [left|].
  - right. exists rs'. now split; [right|].
Qed.

Lemma run_prev_output_source_witness :
  prev_output example_state = Some 10.05 \/
  exists rs, In rs [[Reading 10.0; Reading 10.05; Reading 50.0]; [Missing]] /\
             In (Reading 10.05) rs.
Proof.
  apply (run_prev_output_source [[Reading 10.0; Reading 10.05; Reading 50.0]; [Missing]]).
  vm_compute. reflexivity.
Defined.

(** X9: once a previous output is stored it is never cleared: it stays
    non-null over any later run of updates. *)
Theorem run_prev_output_kept (cycles : list (list entity_reading)) (st : group_state) :
  prev_output st <> None -> prev_output (run_updates st cycles) <> None.
Proof.
  unfold run_updates. revert st; induction cycles as [|rs cycles IH]; intros st H;
    simpl; [exact H|].
  apply IH, update_prev_output_kept, H.
Qed.

Lemma run_prev_output_kept_witness :
  prev_output (run_updates
    {| voter_threshold := 0.5; smoothing_threshold := 1.0;
       prev_output := Some 30; attr_native_value := Some 30;
       calculation_type := Median; attr_available := true |}
    [[Reading 10.0; Reading 10.05; Reading 50.0]; [Missing]; [Reading 1; Reading 90; Reading 200]])
  <> None.
Proof. apply run_prev_output_kept. discriminate. Defined.

(** X10: entities without a state or with a non-numeric state do not
    influence an update: the result is the same as with only the entities
    that gave a numeric reading, in the same order. *)
Theorem update_ignores_non_readings (st : group_state) (rs : list entity_reading) :
  async_update_group_state st rs = async_update_group_state st (filter is_reading rs).
Proof.
  unfold async_update_group_state. now rewrite gather_filter.
Qed.



(** X12: the first update of an entity just set up (no previous output) is
    never [smoothed]: it is either a [median] value or, when fewer than three
    numeric readings came in, unavailable with calculation type [none]. *)
Theorem setup_first_update (entry_id : string) (options : options_dict)
    (b : bool) (hass : string -> entity_reading) :
  let e := entity_update (async_setup_entry entry_id options b) hass in
  (calculation_type (ent_state e) = Median /\
   attr_available (ent_state e) = true /\
   exists x, attr_native_value (ent_state e) = Some x) \/
  (calculation_type (ent_state e) = CNone /\ attr_available (ent_state e) = false /\
   attr_native_value (ent_state e) = None).
Proof.
  cbv zeta. unfold entity_update, async_setup_entry, new_sensor_group. cbn [ent_state ent_entity_ids].
  set (ids := match opt_entities options with Some l => l | None => [] end).
  set (st0 := {| voter_threshold := _; smoothing_threshold := _; prev_output := None;
                 attr_native_value := None; calculation_type := CNone;
                 attr_available := b |}).
  pose proof (gather_any_valid (map hass ids)) as Hany.
  unfold async_update_group_state.
  destruct (gather (map hass ids)) as [vals av]; cbv beta iota zeta delta [fst snd] in *.
  destruct (PeanoNat.Nat.lt_ge_cases (length vals) 3) as [Hlt|Hn].
  - replace (Nat.leb 3 (length vals)) with false
      by (symmetry; apply PeanoNat.Nat.leb_gt; lia).
    rewrite Bool.andb_false_r. right. cbn. now repeat split.
  - assert (Hav : av = true)
      by (apply Hany; destruct vals; [simpl in Hn; lia | discriminate]).
    replace (Nat.leb 3 (length vals)) with true
      by (symmetry; now apply PeanoNat.Nat.leb_le).
    rewrite Hav. cbn [negb andb]. left.
    destruct (no_prev_median_helper vals (voter_threshold st0)
                (smoothing_threshold st0) Hn) as [x Hx].
    change (prev_output st0) with (@None Q). rewrite Hx. cbn.
    split; [reflexivity|]. split; [reflexivity|]. now exists x.
Qed.

(** ** Properties of the configuration flow and of the setup *)

Lemma flow_entry_ok (validate : list string -> option (list string))
    (ui : options_dict) (es : list string) (nm : string) (d : options_dict) :
  flow_entry validate ui es = inr (nm, d) ->
  exists ents vt st, validate es = Some ents /\ opt_name ui = Some nm /\
    opt_voter_threshold ui = Some vt /\ opt_smoothing_threshold ui = Some st /\
    d = {| opt_name := Some nm; opt_entities := Some ents;
           opt_voter_threshold := Some vt; opt_smoothing_threshold := Some st |}.
Proof.
  unfold flow_entry.
  destruct (validate es) as [ents|]; [|discriminate].
  destruct (opt_name ui) as [n|], (opt_voter_threshold ui) as [vt|],
    (opt_smoothing_threshold ui) as [st|]; try discriminate.
  intros H. injection H as <- <-. now exists ents, vt, st.
Qed.

Lemma step_user_created (validate : list string -> option (list string))
    (ui : options_dict) (title : string) (data options : options_dict) :
  async_step_user validate (Some ui) = CreateEntry title data options ->
  exists es ents vt st,
    opt_entities ui = Some es /\ (3 <= length es)%nat /\
    validate es = Some ents /\ opt_name ui = Some title /\
    opt_voter_threshold ui = Some vt /\ opt_smoothing_threshold ui = Some st /\
    data = empty_dict /\
    options = {| opt_name := Some title; opt_entities := Some ents;
                 opt_voter_threshold := Some vt; opt_smoothing_threshold := Some st |}.
Proof.
  unfold async_step_user.
  destruct (opt_entities ui) as [es|] eqn:Ee; [|discriminate].
  destruct (Nat.leb 3 (length es)) eqn:El; [|discriminate].
  destruct (flow_entry validate ui es) as [r|[nm d]] eqn:Ef.
  - intros ->. unfold flow_entry in Ef.
    destruct (validate es); [|discriminate].
    destruct (opt_name ui), (opt_voter_threshold ui), (opt_smoothing_threshold ui);
      discriminate.
  - intros H. injection H as <- <- <-.
    destruct (flow_entry_ok _ _ _ _ _ Ef) as [ents [vt [st [Hv [Hn [Ht [Hs Hd]]]]]]].
    exists es, ents, vt, st. apply PeanoNat.Nat.leb_le in El. now repeat split.
Qed.


(** X13: the config flow's user step creates an entry only when at least
    three entities are selected and validation and all keys succeed; the
    entry is titled with the given name, has empty data, and its options
    hold the validated entity ids, the two thresholds and the name as
    given. *)
Theorem step_user_creates (validate : list string -> option (list string))
    (ui : options_dict) (title : string) (data options : options_dict) :
  async_step_user validate (Some ui) = CreateEntry title data options ->
  exists es ents vt st,
    opt_entities ui = Some es /\ (3 <= length es)%nat /\
    validate es = Some ents /\ opt_name ui = Some title /\
    opt_voter_threshold ui = Some vt /\ opt_smoothing_threshold ui = Some st /\
    data = empty_dict /\
    options = {| opt_name := Some title; opt_entities := Some ents;
                 opt_voter_threshold := Some vt; opt_smoothing_threshold := Some st |}.
Proof. apply step_user_created. Qed.

Lemma step_user_creates_witness :
  exists es ents vt st,
    Some ["sensor.a"; "sensor.b"; "sensor.c"]%string = Some es /\ (3 <= length es)%nat /\
    Some es = Some ents /\ Some "Temp"%string = Some "Temp"%string /\
    Some 0.5 = Some vt /\ Some 2.0 = Some st /\
    empty_dict = empty_dict /\
    {| opt_name := Some "Temp"%string;
       opt_entities := Some ["sensor.a"; "sensor.b"; "sensor.c"]%string;
       opt_voter_threshold := Some 0.5; opt_smoothing_threshold := Some 2.0 |} =
    {| opt_name := Some "Temp"%string; opt_entities := Some ents;
       opt_voter_threshold := Some vt; opt_smoothing_threshold := Some st |}.
Proof.
  apply (step_user_creates (fun l => Some l)
    {| opt_name := Some "Temp"%string;
       opt_entities := Some ["sensor.a"; "sensor.b"; "sensor.c"]%string;
       opt_voter_threshold := Some 0.5; opt_smoothing_threshold := Some 2.0 |}).
  reflexivity.
Defined.



(** X15: an entry created by the user step sets up an entity named after
    the entry title, watching the validated entity ids, with the voter and
    smoothing thresholds the user entered, no previous output and
    calculation type [none]. *)
Theorem step_user_then_setup (validate : list string -> option (list string))
    (ui : options_dict) (title : string) (data options : options_dict)
    (entry_id : string) (b : bool) :
  async_step_user validate (Some ui) = CreateEntry title data options ->
  exists es ents vt st,
    opt_entities ui = Some es /\ validate es = Some ents /\
    opt_voter_threshold ui = Some vt /\ opt_smoothing_threshold ui = Some st /\
    ent_name (async_setup_entry entry_id options b) = Some title /\
    ent_entity_ids (async_setup_entry entry_id options b) = ents /\
    voter_threshold (ent_state (async_setup_entry entry_id options b)) = vt /\
    smoothing_threshold (ent_state (async_setup_entry entry_id options b)) = st /\
    prev_output (ent_state (async_setup_entry entry_id options b)) = None /\
    calculation_type (ent_state (async_setup_entry entry_id options b)) = CNone.
Proof.
  intros H.
  destruct (step_user_created _ _ _ _ _ H)
    as [es [ents [vt [st [Hes [_ [Hv [_ [Hvt [Hst [_ ->]]]]]]]]]]].
  exists es, ents, vt, st. now repeat split.
Qed.

Lemma step_user_then_setup_witness :
  voter_threshold (ent_state (async_setup_entry "entry"
    {| opt_name := Some "Temp"%string;
       opt_entities := Some ["sensor.a"; "sensor.b"; "sensor.c"]%string;
       opt_voter_threshold := Some 0.3; opt_smoothing_threshold := Some 4 |} true)) = 0.3.
Proof.
  destruct (step_user_then_setup (fun l => Some l)
    {| opt_name := Some "Temp"%string;
       opt_entities := Some ["sensor.a"; "sensor.b"; "sensor.c"]%string;
       opt_voter_threshold := Some 0.3; opt_smoothing_threshold := Some 4 |}
    "Temp" empty_dict
    {| opt_name := Some "Temp"%string;
       opt_entities := Some ["sensor.a"; "sensor.b"; "sensor.c"]%string;
       opt_voter_threshold := Some 0.3; opt_smoothing_threshold := Some 4 |}
    "entry" true eq_refl)
    as [es [ents [vt [st [_ [_ [Hvt [_ [_ [_ [Hv _]]]]]]]]]]].
  rewrite Hv. injection Hvt as <-. reflexivity.
Defined.

(** X16: the options flow stores new options only when at least three
    entities are selected: the entry it creates has an empty title, carries
    the validated entity ids, thresholds and name in its data, and no
    options; with fewer than three it shows the pre-filled form again with
    the error [not_enough_entities]. *)
Theorem step_init_result (validate : list string -> option (list string))
    (current ui : options_dict) :
  (forall title data options,
     async_step_init validate current (Some ui) = CreateEntry title data options ->
     exists es ents vt st nm,
       opt_entities ui = Some es /\ (3 <= length es)%nat /\ validate es = Some ents /\
       opt_name ui = Some nm /\ opt_voter_threshold ui = Some vt /\
       opt_smoothing_threshold ui = Some st /\
       title = ""%string /\ options = empty_dict /\
       data = {| opt_name := Some nm; opt_entities := Some ents;
                 opt_voter_threshold := Some vt; opt_smoothing_threshold := Some st |}) /\
  (forall es, opt_entities ui = Some es -> (length es < 3)%nat ->
     async_step_init validate current (Some ui) =
     ShowForm "init" (options_schema current)
       [("base"%string, "not_enough_entities"%string)]).
Proof.
  split.
  - intros title data options. unfold async_step_init.
    destruct (opt_entities ui) as [es|] eqn:Ee; [|discriminate].
    destruct (Nat.leb 3 (length es)) eqn:El; [|discriminate].
    destruct (flow_entry validate ui es) as [r|[nm d]] eqn:Ef.
    + intros ->. unfold flow_entry in Ef.
      destruct (validate es); [|discriminate].
      destruct (opt_name ui), (opt_voter_threshold ui), (opt_smoothing_threshold ui);
        discriminate.
    + intros H. injection H as <- <- <-.
      destruct (flow_entry_ok _ _ _ _ _ Ef) as [ents [vt [st [Hv [Hn [Ht [Hs Hd]]]]]]].
      exists es, ents, vt, st, nm. apply PeanoNat.Nat.leb_le in El.
      now repeat split.
  - intros es Hes Hlt. unfold async_step_init. rewrite Hes.
    replace (Nat.leb 3 (length es)) with false
      by (symmetry; now apply PeanoNat.Nat.leb_gt).
    reflexivity.
Qed.

Lemma step_init_result_witness :
  async_step_init (fun l => Some l) empty_dict
    (Some {| opt_name := Some "Temp"%string; opt_entities := Some ["sensor.a"]%string;
             opt_voter_threshold := Some 0.5; opt_smoothing_threshold := Some 2.0 |}) =
  ShowForm "init" (options_schema empty_dict)
    [("base"%string, "not_enough_entities"%string)].
Proof.
  apply (proj2 (step_init_result (fun l => Some l) empty_dict
    {| opt_name := Some "Temp"%string; opt_entities := Some ["sensor.a"]%string;
       opt_voter_threshold := Some 0.5; opt_smoothing_threshold := Some 2.0 |})
    ["sensor.a"]%string); [reflexivity | simpl; lia].
Defined.



Lemma dict_get_merge_same (d : list (string * attr_value)) (k : string) (v : attr_value) :
  dict_get k (dict_merge_key d k v) = Some v.
Proof.
  unfold dict_merge_key.
  destruct (existsb (fun kv => String.eqb k (fst kv)) d) eqn:E.
  - induction d as [|[k' v'] d IH]; [discriminate|]. simpl in *.
    destruct (String.eqb k k') eqn:Ek; simpl.
    + now rewrite String.eqb_refl.
    + rewrite Ek. now apply IH.
  - induction d as [|[k' v'] d IH]; simpl; [now rewrite String.eqb_refl|].
    simpl in E. apply Bool.orb_false_iff in E as [Ek E].
    rewrite Ek. now apply IH.
Qed.

Lemma dict_get_merge_other (d : list (string * attr_value)) (k k' : string)
    (v : attr_value) :
  k' <> k -> dict_get k' (dict_merge_key d k v) = dict_get k' d.
Proof.
  intros Hne. assert (Hf : String.eqb k' k = false) by now apply String.eqb_neq.
  unfold dict_merge_key.
  destruct (existsb (fun kv => String.eqb k (fst kv)) d).
  - induction d as [|[k1 v1] d IH]; [reflexivity|]. simpl.
    destruct (String.eqb k k1) eqn:Ek; simpl.
    + apply String.eqb_eq in Ek. subst k1. now rewrite Hf, IH.
    + now rewrite IH.
  - induction d as [|[k1 v1] d IH]; simpl; [now rewrite Hf|].
    now rewrite IH.
Qed.

(** X18: the entity's state attributes report its current calculation type
    under ["calculation_type"] and keep every other attribute of the base
    sensor group unchanged. *)
Theorem extra_state_attributes_spec (base : list (string * attr_value))
    (st : group_state) :
  dict_get "calculation_type" (extra_state_attributes base st) =
    Some (AStr (calc_type_str (calculation_type st))) /\
  (forall k, k <> "calculation_type"%string ->
     dict_get k (extra_state_attributes base st) = dict_get k base).
Proof.
  split.
  - apply dict_get_merge_same.
  - intros k Hk. now apply dict_get_merge_other.
Qed.

Lemma extra_state_attributes_spec_witness :
  dict_get "entity_id" (extra_state_attributes [("entity_id"%string, AOther 0)] example_state) =
  Some (AOther 0).
Proof.
  apply (proj2 (extra_state_attributes_spec [("entity_id"%string, AOther 0)] example_state)).
  discriminate.
Defined.
